(** * Diff Review Session Controller: a shallow embedding of
    src/src/ui/static/diff-viewer.js (class DiffViewer).

    The DOM is not modelled beyond the few facts the controller writes into
    it (alerts, the "disabled" state of the action buttons, the status text).
    The JavaScript Set [this.appliedChanges] is a [gset string]; the
    asynchronous code is run sequentially ([await] is the monadic bind): the
    authority answers the n-th request issued with [auth n req]. *)

From Stdlib Require Import ZArith QArith Lia Ascii String.
From stdpp Require Import base gmap sets list strings pretty.

Open Scope string_scope.

(* ------------------------------------------------------------------ *)
(** ** Wire data (field names as in the JSON of the authority) *)

Record Change := mkChange {
  id : string;
  change_type : string;
  line_number : Z;
  old_content : option string;
  new_content : option string;
  reason : string;
  applied : bool
}.

Record File := mkFile {
  file_path : string;
  file_type : string;
  original_content : string;
  preview_content : string;
  changes : list Change
}.

(** A JSON reply of the authority. A field absent from the object is [None];
    [success] absent is [false] (only its truthiness is read). *)
Record Json := mkJson {
  j_error : option string;
  j_success : bool;
  j_files : option (list File);
  j_applied_changes : option (list string);
  j_repository_name : option string;
  j_status : option string
}.

Definition emptyJson : Json := mkJson None false None None None None.

(** What [await fetch(...)] followed by [await response.json()] yields:
    a parsed object, or a rejection (network error, unparsable body). *)
Inductive Reply := RJson (j : Json) | RThrow.

Inductive Req :=
| GetSession                    (* GET  /api/session/${id}          *)
| PostApply (change_id : string)  (* POST /api/session/${id}/apply    *)
| PostUnapply (change_id : string) (* POST /api/session/${id}/unapply  *)
| PostComplete.                 (* POST /api/session/${id}/complete *)

(** JS truthiness of an optional string field ([""] is falsy). *)
Definition str_truthy (o : option string) : bool :=
  match o with Some s => negb (String.eqb s "") | None => false end.

(** [a || b] on an optional string and a default string. *)
Definition str_or (o : option string) (dflt : string) : string :=
  match o with Some s => if String.eqb s "" then dflt else s | None => dflt end.

(* ------------------------------------------------------------------ *)
(** ** The controller's state ([this] of DiffViewer) *)

(** The two closures ever stored in [this.pendingAction]. *)
Inductive PendingAction := PA_applyAll | PA_complete.

Record Viewer := mkViewer {
  sessionId : string;
  currentFileIndex : Z;
  session : option Json;
  files : list File;
  appliedChanges : gset string;
  pendingAction : option PendingAction;
  (* DOM facts written by the controller. [actionButtonsDisabled]: the
     buttons on screen were disabled by [completeSession]; the actions
     panel is never redrawn, but a later [renderInterface] re-creates the
     change buttons enabled (see [currentFileButtons]) and rewrites the
     status text from [updateStatusBar] (see [statusBarTexts]). *)
  actionButtonsDisabled : bool;
  sessionStatusText : string
}.

Definition set_session (v : Viewer) (s : option Json) : Viewer :=
  mkViewer (sessionId v) (currentFileIndex v) s (files v) (appliedChanges v)
    (pendingAction v) (actionButtonsDisabled v) (sessionStatusText v).
Definition set_files (v : Viewer) (fs : list File) : Viewer :=
  mkViewer (sessionId v) (currentFileIndex v) (session v) fs (appliedChanges v)
    (pendingAction v) (actionButtonsDisabled v) (sessionStatusText v).
Definition set_appliedChanges (v : Viewer) (a : gset string) : Viewer :=
  mkViewer (sessionId v) (currentFileIndex v) (session v) (files v) a
    (pendingAction v) (actionButtonsDisabled v) (sessionStatusText v).
Definition set_currentFileIndex (v : Viewer) (i : Z) : Viewer :=
  mkViewer (sessionId v) i (session v) (files v) (appliedChanges v)
    (pendingAction v) (actionButtonsDisabled v) (sessionStatusText v).
Definition set_pendingAction (v : Viewer) (p : option PendingAction) : Viewer :=
  mkViewer (sessionId v) (currentFileIndex v) (session v) (files v)
    (appliedChanges v) p (actionButtonsDisabled v) (sessionStatusText v).
Definition set_completedDom (v : Viewer) (txt : string) : Viewer :=
  mkViewer (sessionId v) (currentFileIndex v) (session v) (files v)
    (appliedChanges v) (pendingAction v) true txt.

(** Observable effects, in order: requests sent and alerts shown. *)
Inductive Event := Fetch (r : Req) | Alert (msg : string).

Record World := mkWorld {
  vw : Viewer;
  auth : nat -> Req -> Reply;
  nreq : nat;
  trace : list Event
}.

Definition set_vw (w : World) (v : Viewer) : World :=
  mkWorld v (auth w) (nreq w) (trace w).
Definition emit (w : World) (e : Event) : World :=
  mkWorld (vw w) (auth w) (nreq w) (trace w ++ [e]).

(* ------------------------------------------------------------------ *)
(** ** A state and exception monad for the async methods *)

Inductive Res (A : Type) := Ok (a : A) | Exn (msg : string).
Arguments Ok {A} a.
Arguments Exn {A} msg.

Definition M (A : Type) := World -> Res A * World.

Definition ret {A} (a : A) : M A := fun w => (Ok a, w).
Definition bind {A B} (m : M A) (k : A -> M B) : M B :=
  fun w => match m w with
           | (Ok a, w') => k a w'
           | (Exn e, w') => (Exn e, w')
           end.
Definition throw {A} (msg : string) : M A := fun w => (Exn msg, w).
(** [try { m } catch (error) { h(error) }] *)
Definition try_catch {A} (m : M A) (h : string -> M A) : M A :=
  fun w => match m w with
           | (Exn e, w') => h e w'
           | r => r
           end.
Definition get : M Viewer := fun w => (Ok (vw w), w).
Definition put (v : Viewer) : M unit := fun w => (Ok tt, set_vw w v).
Definition modify (f : Viewer -> Viewer) : M unit :=
  fun w => (Ok tt, set_vw w (f (vw w))).

Notation "x <- m ;; k" := (bind m (fun x => k))
  (at level 100, m at next level, right associativity).
Notation "m ;;; k" := (bind m (fun _ => k))
  (at level 100, right associativity).

(** [await (await fetch(url, ...)).json()]: issues the request, then the
    authority's reply to it (the [nreq]-th request) is parsed or rejects. *)
Definition fetch_json (r : Req) : M Json :=
  fun w =>
    let w' := mkWorld (vw w) (auth w) (S (nreq w)) (trace w ++ [Fetch r]) in
    match auth w (nreq w) r with
    | RJson j => (Ok j, w')
    | RThrow => (Exn "fetch failed", w')
    end.

(** [alert(`Error: ${message}`)] *)
Definition showError (message : string) : M unit :=
  fun w => (Ok tt, emit w (Alert ("Error: " ++ message))).
(** [alert(`Success: ${message}`)] *)
Definition showSuccess (message : string) : M unit :=
  fun w => (Ok tt, emit w (Alert ("Success: " ++ message))).

(* ------------------------------------------------------------------ *)
(** ** applyChange / unapplyChange (lines 269-315) *)

(** [updateChangeElement] and [updateProgress] only write the DOM (class
    list, action button, progress bar) and are not part of [Viewer]. One
    error path of theirs is left out: for an id that is no valid CSS string
    (one holding a double-quote character, say), the [querySelector] of
    [updateChangeElement] throws after the Set update, and the [catch]
    then also shows the failure alert. It changes no state and sends no
    request; the statements below do not speak of the alerts of a
    successful call. *)
Definition applyChange (changeId : string) : M unit :=
  try_catch
    (result <- fetch_json (PostApply changeId) ;;
     if j_success result then
       modify (fun v => set_appliedChanges v ({[changeId]} ∪ appliedChanges v))
     else showError (str_or (j_error result) "Failed to apply change"))
    (fun _ => showError "Failed to apply change").

Definition unapplyChange (changeId : string) : M unit :=
  try_catch
    (result <- fetch_json (PostUnapply changeId) ;;
     if j_success result then
       modify (fun v => set_appliedChanges v (appliedChanges v ∖ {[changeId]}))
     else showError (str_or (j_error result) "Failed to unapply change"))
    (fun _ => showError "Failed to unapply change").

(* ------------------------------------------------------------------ *)
(** ** applyAllChanges (lines 346-354) *)

(** [for (const change of allChanges) { if (!this.appliedChanges.has(change.id))
    await this.applyChange(change.id); }] -- the membership test reads the
    Set as it is when the loop reaches the change. *)
Fixpoint applyAll_loop (allChanges : list Change) : M unit :=
  match allChanges with
  | [] => ret tt
  | change :: rest =>
      v <- get ;;
      (if bool_decide (id change ∈ appliedChanges v) then ret tt
       else applyChange (id change)) ;;;
      applyAll_loop rest
  end.

Definition applyAllChanges : M unit :=
  v <- get ;;
  applyAll_loop (flat_map changes (files v)).

(* ------------------------------------------------------------------ *)
(** ** completeSession (lines 362-389) *)

(** On success: alert, the status text "Session: Completed", and every
    action button disabled; [setTimeout(() => window.close(), 3000)] is not
    modelled. Reading [result.applied_changes.length] on a reply without
    that field raises a TypeError, caught by the surrounding [catch]. *)
Definition completeSession : M unit :=
  try_catch
    (result <- fetch_json PostComplete ;;
     if j_success result then
       match j_applied_changes result with
       | None => throw "TypeError: result.applied_changes is undefined"
       | Some l =>
           showSuccess ("Session completed! " ++ pretty (N.of_nat (length l))
                        ++ " changes will be applied.") ;;;
           modify (fun v => set_completedDom v "Session: Completed")
       end
     else showError (str_or (j_error result) "Failed to complete session"))
    (fun _ => showError "Failed to complete session").

(* ------------------------------------------------------------------ *)
(** ** loadSession (lines 26-44) *)

Definition loadSession : M unit :=
  try_catch
    (data <- fetch_json GetSession ;;
     if str_truthy (j_error data) then throw (str_or (j_error data) "")
     else
       modify (fun v =>
         set_appliedChanges
           (set_files (set_session v (Some data)) (default [] (j_files data)))
           (list_to_set (default [] (j_applied_changes data)))))
    (fun error => throw error).

(* ------------------------------------------------------------------ *)
(** ** navigateFile (lines 391-397) *)

(** [renderInterface] only redraws the DOM. *)
Definition navigateFile (direction : Z) : M unit :=
  v <- get ;;
  let newIndex := (currentFileIndex v + direction)%Z in
  if (0 <=? newIndex)%Z && (newIndex <? Z.of_nat (length (files v)))%Z
  then put (set_currentFileIndex v newIndex)
  else ret tt.

(* ------------------------------------------------------------------ *)
(** ** updateProgress (lines 399-406) *)

(** The numbers [updateProgress] writes into the progress bar and text:
    [(appliedCount, totalChanges, percentage)]. JavaScript's double
    division is taken as the exact rational one. *)
Definition progress (v : Viewer) : nat * nat * Q :=
  let totalChanges :=
    fold_left (fun sum file => (sum + length (changes file))%nat) (files v) 0%nat in
  let appliedCount := size (appliedChanges v) in
  let percentage :=
    if Nat.ltb 0 totalChanges
    then ((Z.of_nat appliedCount # 1) / (Z.of_nat totalChanges # 1) * 100)%Q
    else 0%Q in
  (appliedCount, totalChanges, percentage).

Definition progress_percentage (v : Viewer) : Q :=
  match progress v with (_, _, p) => p end.

(* ------------------------------------------------------------------ *)
(** ** formatChangeType (lines 422-436) *)

(** The JavaScript values [typeMap[type]] can produce. *)
Inductive JsVal :=
| JStr (s : string)
| JFunction (name : string)     (* a built-in function *)
| JObject (name : string)       (* a plain object *)
| JUndefined.

Definition js_truthy (x : JsVal) : bool :=
  match x with
  | JStr s => negb (String.eqb s "")
  | JFunction _ | JObject _ => true
  | JUndefined => false
  end.

Fixpoint assoc {A} (k : string) (l : list (string * A)) : option A :=
  match l with
  | [] => None
  | (k', a) :: l' => if String.eqb k k' then Some a else assoc k l'
  end.

(** The own properties of the object literal [typeMap]. *)
Definition typeMap : list (string * string) :=
  [("replace", "MODIFY"); ("insert_after", "INSERT");
   ("insert_before", "INSERT"); ("delete", "DELETE");
   ("create_file", "CREATE"); ("delete_file", "DELETE");
   ("replace_range", "MODIFY"); ("insert_many_after", "INSERT");
   ("insert_many_before", "INSERT"); ("delete_many", "DELETE")].

(** The properties an object literal inherits from [Object.prototype]. *)
Definition objectPrototype : list (string * JsVal) :=
  [("constructor", JFunction "Object");
   ("__defineGetter__", JFunction "__defineGetter__");
   ("__defineSetter__", JFunction "__defineSetter__");
   ("hasOwnProperty", JFunction "hasOwnProperty");
   ("__lookupGetter__", JFunction "__lookupGetter__");
   ("__lookupSetter__", JFunction "__lookupSetter__");
   ("isPrototypeOf", JFunction "isPrototypeOf");
   ("propertyIsEnumerable", JFunction "propertyIsEnumerable");
   ("toString", JFunction "toString");
   ("valueOf", JFunction "valueOf");
   ("__proto__", JObject "Object.prototype");
   ("toLocaleString", JFunction "toLocaleString")].

(** Property read [typeMap[type]]: own property, else prototype chain. *)
Definition typeMap_get (type : string) : JsVal :=
  match assoc type typeMap with
  | Some s => JStr s
  | None => match assoc type objectPrototype with
            | Some x => x
            | None => JUndefined
            end
  end.

(** [String.prototype.toUpperCase] on ASCII text. *)
Definition ascii_upper (c : ascii) : ascii :=
  let n := nat_of_ascii c in
  if (Nat.leb 97 n && Nat.leb n 122)%bool then ascii_of_nat (n - 32) else c.

Fixpoint toUpperCase (s : string) : string :=
  match s with
  | EmptyString => EmptyString
  | String c s' => String (ascii_upper c) (toUpperCase s')
  end.

Definition formatChangeType (type : string) : JsVal :=
  let x := typeMap_get type in
  if js_truthy x then x else JStr (toUpperCase type).

(** [typeSpan.textContent = ...] converts the value with [String(...)]. *)
Definition js_to_string (x : JsVal) : string :=
  match x with
  | JStr s => s
  | JFunction n => "function " ++ n ++ "() { [native code] }"
  | JObject _ => "[object Object]"
  | JUndefined => "undefined"
  end.

Definition displayLabel (type : string) : string :=
  js_to_string (formatChangeType type).

(* ------------------------------------------------------------------ *)
(** ** Event wiring (setupEventListeners, lines 46-118) *)

(** [showConfirmation(title, message, action)]: shows the modal and stores
    the action (replacing any pending one). *)
Definition showConfirmation (action : PendingAction) : M unit :=
  modify (fun v => set_pendingAction v (Some action)).

Definition runPendingAction (a : PendingAction) : M unit :=
  match a with
  | PA_applyAll => applyAllChanges
  | PA_complete => completeSession
  end.

Definition applySelectedChanges : M unit :=
  v <- get ;;
  showSuccess (pretty (N.of_nat (size (appliedChanges v)))
               ++ " changes are currently selected for application").

(** The events the page listens to: the listeners [setupEventListeners]
    installs, and the click listeners of the per-change Apply / Unapply
    buttons that [createChangeElement] (lines 241-253) and
    [updateChangeElement] (lines 330-342) attach. *)
Inductive UiEvent :=
| ClickPrevFile | ClickNextFile
| ClickApplyAll | ClickApplySelected | ClickSkipAll | ClickComplete
| ClickModalConfirm | ClickModalCancel
| KeyDown (ctrlKey metaKey : bool) (key : string)
| ClickChangeApply (changeId : string)
| ClickChangeUnapply (changeId : string).

(** The listener run for each delivered event. On confirm, the pending
    closure is called and then [this.pendingAction = null]; nothing in the
    closures reads or writes [pendingAction], so running the call to its end
    first gives the same state. *)
Definition handleEvent (ev : UiEvent) : M unit :=
  match ev with
  | ClickPrevFile => navigateFile (-1)
  | ClickNextFile => navigateFile 1
  | ClickApplyAll => showConfirmation PA_applyAll
  | ClickApplySelected => applySelectedChanges
  | ClickSkipAll => showConfirmation PA_complete
  | ClickComplete => showConfirmation PA_complete
  | ClickModalConfirm =>
      v <- get ;;
      match pendingAction v with
      | Some a => runPendingAction a ;;;
                  modify (fun v' => set_pendingAction v' None)
      | None => ret tt
      end
  | ClickModalCancel => modify (fun v => set_pendingAction v None)
  | KeyDown ctrlKey metaKey key =>
      if (ctrlKey || metaKey)%bool then
        if String.eqb key "ArrowLeft" then navigateFile (-1)
        else if String.eqb key "ArrowRight" then navigateFile 1
        else if String.eqb key "Enter" then completeSession
        else ret tt
      else ret tt
  | ClickChangeApply changeId => applyChange changeId
  | ClickChangeUnapply changeId => unapplyChange changeId
  end.

(* ------------------------------------------------------------------ *)
(** ** Derived notions used in the statements *)

Definition allChanges (fs : list File) : list Change := flat_map changes fs.

(** [{ c.id : c.applied }] *)
Definition flaggedIds (fs : list File) : gset string :=
  list_to_set (map id (List.filter applied (allChanges fs))).

Definition registry_consistent (v : Viewer) : Prop :=
  appliedChanges v = flaggedIds (files v).

(** The requests in a list of events, in order. *)
Definition requests (t : list Event) : list Req :=
  omap (fun e => match e with Fetch r => Some r | Alert _ => None end) t.

Definition run {A} (m : M A) (w : World) : World := snd (m w).

(* ------------------------------------------------------------------ *)
(** ** A concrete session used by the examples below *)

Definition ex_c1 : Change :=
  mkChange "c1" "replace" 3 (Some "let x = 1;") (Some "const x = 1;") "prefer const" false.
Definition ex_c2 : Change :=
  mkChange "c2" "insert_after" 7 None (Some "return x;") "missing return" false.
Definition ex_c3 : Change :=
  mkChange "c3" "delete" 9 (Some "debugger;") None "debug statement" false.

Definition ex_fileA : File :=
  mkFile "src/a.js" "javascript" "let x = 1;" "const x = 1;" [ex_c1].
Definition ex_fileB : File :=
  mkFile "src/b.js" "javascript" "f(x)" "f(x)" [ex_c2; ex_c3].

Definition ex_viewer0 : Viewer := mkViewer "sess-1" 0 None [] ∅ None false "".

Definition ex_snapshot (fs : list File) (appliedIds : option (list string)) : Json :=
  mkJson None true (Some fs) appliedIds (Some "demo-repo") (Some "active").

(** [{ success: true }] and [{ success: false, error }] *)
Definition ex_success : Json := mkJson None true None None None None.
Definition ex_failure (error : string) : Json :=
  mkJson (Some error) false None None None None.
(** [{ success: true, applied_changes }] from the complete endpoint *)
Definition ex_completed (ids : list string) : Json :=
  mkJson None true None (Some ids) None None.

(** An authority that serves [snap], accepts every request, except an
    apply of [failId], which it answers with [{success: false}]. *)
Definition ex_auth (snap : Json) (failId : string) : nat -> Req -> Reply :=
  fun _ r =>
    match r with
    | GetSession => RJson snap
    | PostApply i =>
        if String.eqb i failId then RJson (ex_failure "conflict") else RJson ex_success
    | PostUnapply _ => RJson ex_success
    | PostComplete => RJson (ex_completed ["c1"])
    end.

Definition ex_world (snap : Json) (failId : string) : World :=
  mkWorld ex_viewer0 (ex_auth snap failId) 0 [].

(** The world right after a successful [loadSession]. *)
Definition ex_loaded (snap : Json) (failId : string) : World :=
  run loadSession (ex_world snap failId).

Definition ex_c1_flagged : Change :=
  mkChange "c1" "replace" 3 (Some "let x = 1;") (Some "const x = 1;") "prefer const" true.
Definition ex_fileA_flagged : File :=
  mkFile "src/a.js" "javascript" "let x = 1;" "const x = 1;" [ex_c1_flagged].

(** An authority whose every request fails at the transport level. *)
Definition ex_down : nat -> Req -> Reply := fun _ _ => RThrow.

(* ------------------------------------------------------------------ *)
(** ** init (lines 12-24) *)

(** [setupEventListeners], [renderInterface] and [showLoading(false)] only
    touch the DOM; on files with all their fields they raise nothing. Any
    exception of [loadSession] is caught and reported with a fixed
    message. *)
Definition init : M unit :=
  try_catch loadSession (fun _ => showError "Failed to load diff session").

(* ------------------------------------------------------------------ *)
(** ** Rendering facts (lines 127-203, 408-413, 474-478) *)

(** The click listener of the [index]-th tab of [renderFileList]
    ([this.currentFileIndex = index]; [renderInterface] redraws). *)
Definition selectTab (index : nat) : M unit :=
  modify (fun v => set_currentFileIndex v (Z.of_nat index)).

(** [renderCurrentFile], files non-empty: the [disabled] flags it gives the
    previous and next buttons. *)
Definition navButtonsDisabled (v : Viewer) : bool * bool :=
  (Z.eqb (currentFileIndex v) 0,
   Z.eqb (currentFileIndex v) (Z.of_nat (length (files v)) - 1)).

Definition newline : ascii := Ascii.ascii_of_nat 10.

(** [s.split('\n')] *)
Fixpoint split_newline (s : string) : list string :=
  match s with
  | EmptyString => [EmptyString]
  | String c s' =>
      let rest := split_newline s' in
      if Ascii.eqb c newline then EmptyString :: rest
      else match rest with
           | [] => [String c EmptyString]
           | h :: t => String c h :: t
           end
  end.

(** [content.split('\n').length], shown as "N lines". *)
Definition lineCount (s : string) : nat := length (split_newline s).

Fixpoint count_newlines (s : string) : nat :=
  match s with
  | EmptyString => 0
  | String c s' => (if Ascii.eqb c newline then 1 else 0) + count_newlines s'
  end.

(** [escapeHtml(text)]: [div.textContent = text; return div.innerHTML].
    Serialising a text node escapes [&], [<], [>] and the no-break space
    (character 160). *)
Fixpoint escapeHtml (text : string) : string :=
  match text with
  | EmptyString => EmptyString
  | String c s' =>
      (if Ascii.eqb c "&"%char then "&amp;"
       else if Ascii.eqb c "<"%char then "&lt;"
       else if Ascii.eqb c ">"%char then "&gt;"
       else if Ascii.eqb c (Ascii.ascii_of_nat 160) then "&nbsp;"
       else String c EmptyString) ++ escapeHtml s'
  end.

(** The lines of the [change-content] block of [createChangeElement]:
    colour and text of each [div] (the text is HTML). *)
Definition changeBodyLines (change : Change) : list (string * string) :=
  let old := default "" (old_content change) in
  let new := default "" (new_content change) in
  if (str_truthy (old_content change) && str_truthy (new_content change))%bool then
    [("#dc3545", "- " ++ escapeHtml old); ("#28a745", "+ " ++ escapeHtml new)]
  else if str_truthy (new_content change) then [("#28a745", "+ " ++ escapeHtml new)]
  else if str_truthy (old_content change) then [("#dc3545", "- " ++ escapeHtml old)]
  else [].

(** The action button [createChangeElement] puts on a change. *)
Inductive ActionButton := BtnApply | BtnUnapply.

Definition changeActionButton (change : Change) : ActionButton :=
  if applied change then BtnUnapply else BtnApply.

(** The buttons a full render shows, change by change. *)
Definition renderedButtons (v : Viewer) : list (string * ActionButton) :=
  map (fun c => (id c, changeActionButton c)) (allChanges (files v)).

(** The change buttons a render of the focused file shows
    ([renderCurrentFile] calls [renderChanges(currentFile.changes)]);
    [createChangeElement] never sets [disabled] on them. [None] when no
    change list is drawn: no files ([showNoFiles]), or an index outside the
    files, where [currentFile.file_path] throws first. *)
Definition currentFileButtons (v : Viewer) : option (list (string * ActionButton)) :=
  let i := currentFileIndex v in
  if ((0 <=? i)%Z && (i <? Z.of_nat (length (files v)))%Z)%bool then
    match nth_error (files v) (Z.to_nat i) with
    | Some f => Some (map (fun c => (id c, changeActionButton c)) (changes f))
    | None => None
    end
  else None.

(** [updateStatusBar]: the repository and status texts, when a session is
    loaded (an absent field prints as "undefined"). *)
Definition statusBarTexts (v : Viewer) : option (string * string) :=
  match session v with
  | Some s =>
      Some ("Repository: " ++ default "undefined" (j_repository_name s),
            "Session: " ++ default "undefined" (j_status s))
  | None => None
  end.

(** Does the string contain the character [c]? *)
Fixpoint has_char (c : ascii) (s : string) : bool :=
  match s with
  | EmptyString => false
  | String c' s' => (Ascii.eqb c c' || has_char c s')%bool
  end.

(** The authority accepts every apply request. *)
Definition accepts_applies (au : nat -> Req -> Reply) : Prop :=
  forall n i, exists j, au n (PostApply i) = RJson j /\ j_success j = true.

(** The focus index designates a file. *)
Definition focus_in_range (v : Viewer) : Prop :=
  (0 <= currentFileIndex v < Z.of_nat (length (files v)))%Z.

(** A world in which the authority accepts every request. *)
Definition ex_accepting_world : World :=
  mkWorld (vw (ex_loaded (ex_snapshot [ex_fileA; ex_fileB] None) ""))
          (fun _ _ => RJson ex_success) 1 [].

(* ================================================================== *)
(** * Properties *)

(** ** Applied-set consistency *)

(** C1 (counterexample): starting from a freshly loaded registry in which
    the applied-set is exactly [{ c.id : c.applied }], one successful
    [applyChange] breaks the equality: the id enters the Set while the
    change's [applied] flag stays [false]. *)
Lemma C1_apply_breaks_consistency :
  let w := ex_loaded (ex_snapshot [ex_fileA; ex_fileB] None) "" in
  registry_consistent (vw w) /\
  ~ registry_consistent (vw (run (applyChange "c1") w)).
Proof.
  split.
  - vm_compute. reflexivity.
  - intros H. apply (f_equal (fun s => bool_decide ("c1" ∈ s))) in H.
    vm_compute in H. discriminate.
Qed.

(** C1 (amended): on a successful reply, [applyChange id] adds [id] to the
    aggregate applied-set and [unapplyChange id] removes it, in one step;
    neither changes anything else in the registry, in particular no
    change's [applied] flag (the files are left as they were). *)
Theorem apply_unapply_success_updates_set_only :
  (forall (w : World) (changeId : string) (j : Json),
     auth w (nreq w) (PostApply changeId) = RJson j -> j_success j = true ->
     vw (run (applyChange changeId) w)
       = set_appliedChanges (vw w) ({[changeId]} ∪ appliedChanges (vw w)) /\
     files (vw (run (applyChange changeId) w)) = files (vw w)) /\
  (forall (w : World) (changeId : string) (j : Json),
     auth w (nreq w) (PostUnapply changeId) = RJson j -> j_success j = true ->
     vw (run (unapplyChange changeId) w)
       = set_appliedChanges (vw w) (appliedChanges (vw w) ∖ {[changeId]}) /\
     files (vw (run (unapplyChange changeId) w)) = files (vw w)).
Proof.
  split; intros w changeId j Hr Hs;
    unfold run, applyChange, unapplyChange, try_catch, bind, fetch_json, modify;
    rewrite Hr; cbn; rewrite Hs; cbn; split; reflexivity.
Qed.

Lemma apply_unapply_success_updates_set_only_witness :
  let w := ex_loaded (ex_snapshot [ex_fileA; ex_fileB] None) "" in
  (vw (run (applyChange "c1") w)
     = set_appliedChanges (vw w) ({["c1"]} ∪ appliedChanges (vw w)) /\
   files (vw (run (applyChange "c1") w)) = files (vw w)) /\
  (vw (run (unapplyChange "c1") w)
     = set_appliedChanges (vw w) (appliedChanges (vw w) ∖ {["c1"]}) /\
   files (vw (run (unapplyChange "c1") w)) = files (vw w)).
Proof.
  intros w. split.
  - apply ((proj1 apply_unapply_success_updates_set_only) w "c1" ex_success);
      reflexivity.
  - apply ((proj2 apply_unapply_success_updates_set_only) w "c1" ex_success);
      reflexivity.
Defined.

(** ** Failure leaves the registry untouched *)

(** C3: when the authority answers [{success: false}] or the request
    rejects, [applyChange] / [unapplyChange] leave the whole controller state
    (per-change flags, applied-set, everything) as it was, and the only
    effect after the request is an alert carrying the reply's [error]
    (or the default message when it is absent or empty). *)
Theorem apply_unapply_failure_no_mutation :
  (forall (w : World) (changeId msg : string),
     match auth w (nreq w) (PostApply changeId) with
     | RThrow => msg = "Failed to apply change"
     | RJson j => j_success j = false /\
                  msg = str_or (j_error j) "Failed to apply change"
     end ->
     vw (run (applyChange changeId) w) = vw w /\
     trace (run (applyChange changeId) w)
       = (trace w ++ [Fetch (PostApply changeId); Alert ("Error: " ++ msg)])%list) /\
  (forall (w : World) (changeId msg : string),
     match auth w (nreq w) (PostUnapply changeId) with
     | RThrow => msg = "Failed to unapply change"
     | RJson j => j_success j = false /\
                  msg = str_or (j_error j) "Failed to unapply change"
     end ->
     vw (run (unapplyChange changeId) w) = vw w /\
     trace (run (unapplyChange changeId) w)
       = (trace w ++ [Fetch (PostUnapply changeId); Alert ("Error: " ++ msg)])%list).
Proof.
  split; intros w changeId msg H;
    unfold run, applyChange, unapplyChange, try_catch, bind, fetch_json,
      showError, emit;
    destruct (auth w (nreq w) _) as [j|]; cbn.
  - destruct H as [Hs ->]. rewrite Hs. cbn.
    split; [reflexivity|]. rewrite <- app_assoc. reflexivity.
  - subst msg. split; [reflexivity|]. rewrite <- app_assoc. reflexivity.
  - destruct H as [Hs ->]. rewrite Hs. cbn.
    split; [reflexivity|]. rewrite <- app_assoc. reflexivity.
  - subst msg. split; [reflexivity|]. rewrite <- app_assoc. reflexivity.
Qed.

Lemma apply_unapply_failure_no_mutation_witness :
  let w := ex_loaded (ex_snapshot [ex_fileA; ex_fileB] None) "c2" in
  let wd := mkWorld ex_viewer0 ex_down 0 [] in
  (vw (run (applyChange "c2") w) = vw w /\
   trace (run (applyChange "c2") w)
     = (trace w ++ [Fetch (PostApply "c2"); Alert "Error: conflict"])%list) /\
  (vw (run (unapplyChange "c1") wd) = vw wd /\
   trace (run (unapplyChange "c1") wd)
     = (trace wd ++ [Fetch (PostUnapply "c1");
                     Alert "Error: Failed to unapply change"])%list).
Proof.
  intros w wd. split.
  - apply ((proj1 apply_unapply_failure_no_mutation) w "c2" "conflict").
    vm_compute. split; reflexivity.
  - apply ((proj2 apply_unapply_failure_no_mutation) wd "c1"
             "Failed to unapply change").
    reflexivity.
Defined.

(** ** Navigation bounds *)

(** C6: [navigateFile(direction)] with direction -1 or +1 moves the focus to
    [current + direction] when that is in [[0, files.length)] and otherwise
    changes nothing (and raises nothing). So -1 at index 0 and +1 at the
    last index are no-ops, and from any other valid index the index moves by
    exactly [direction]. No request or alert is issued. *)
Theorem navigateFile_bounds (w : World) (direction : Z)
  (Hdir : direction = (-1)%Z \/ direction = 1%Z) :
  let v := vw w in
  let cur := currentFileIndex v in
  let len := Z.of_nat (length (files v)) in
  let w' := run (navigateFile direction) w in
  fst (navigateFile direction w) = Ok tt /\
  trace w' = trace w /\
  ((0 <= cur + direction < len)%Z ->
     vw w' = set_currentFileIndex v (cur + direction)) /\
  (~ (0 <= cur + direction < len)%Z -> vw w' = v) /\
  (cur = 0%Z -> direction = (-1)%Z -> vw w' = v) /\
  (cur = (len - 1)%Z -> direction = 1%Z -> vw w' = v) /\
  ((0 <= cur < len)%Z -> ~ (cur = 0%Z /\ direction = (-1)%Z) ->
     ~ (cur = (len - 1)%Z /\ direction = 1%Z) ->
     currentFileIndex (vw w') = (cur + direction)%Z).
Proof.
  cbv zeta. unfold run, navigateFile, bind, get.
  set (cur := currentFileIndex (vw w)).
  set (len := Z.of_nat (length (files (vw w)))).
  destruct (Z.leb_spec0 0 (cur + direction)) as [H0|H0];
  destruct (Z.ltb_spec0 (cur + direction) len) as [H1|H1]; cbn;
    (split; [reflexivity|]); (split; [reflexivity|]);
    repeat split; intros; try reflexivity; exfalso; lia.
Qed.

Lemma navigateFile_bounds_witness :
  let w := ex_loaded (ex_snapshot [ex_fileA; ex_fileB] None) "" in
  (-1 = -1 \/ -1 = 1)%Z /\
  (let v := vw w in
   let cur := currentFileIndex v in
   let len := Z.of_nat (length (files v)) in
   let w' := run (navigateFile (-1)) w in
   fst (navigateFile (-1) w) = Ok tt /\
   trace w' = trace w /\
   ((0 <= cur + -1 < len)%Z -> vw w' = set_currentFileIndex v (cur + -1)) /\
   (~ (0 <= cur + -1 < len)%Z -> vw w' = v) /\
   (cur = 0%Z -> (-1)%Z = (-1)%Z -> vw w' = v) /\
   (cur = (len - 1)%Z -> (-1)%Z = 1%Z -> vw w' = v) /\
   ((0 <= cur < len)%Z -> ~ (cur = 0%Z /\ (-1)%Z = (-1)%Z) ->
      ~ (cur = (len - 1)%Z /\ (-1)%Z = 1%Z) ->
      currentFileIndex (vw w') = (cur + -1)%Z)).
Proof.
  intros w. split; [left; reflexivity|].
  apply (navigateFile_bounds w (-1)). left; reflexivity.
Defined.

(** ** Session loading *)

(** C8 (counterexample): a snapshot whose change [c1] carries
    [applied: true] while its [applied_changes] list is empty loads
    successfully, and afterwards the applied-set (empty) and the per-change
    flags (c1 applied) disagree: the flags are not reconciled. *)
Lemma C8_load_keeps_disagreeing_flags :
  let w := ex_loaded (ex_snapshot [ex_fileA_flagged] (Some [])) "" in
  fst (loadSession (ex_world (ex_snapshot [ex_fileA_flagged] (Some [])) ""))
    = Ok tt /\
  ~ registry_consistent (vw w).
Proof.
  split.
  - reflexivity.
  - intros H. apply (f_equal (fun s => bool_decide ("c1" ∈ s))) in H.
    vm_compute in H. discriminate.
Qed.

(** C8 (amended): when the reply has no truthy [error] field, [loadSession]
    succeeds and in one step stores the reply as [session], its [files]
    (with their [applied] flags exactly as sent) and, as the applied-set, the
    ids of its [applied_changes] list; flags and list are not reconciled.
    When the reply has a truthy [error] field, or the request rejects,
    [loadSession] throws and the controller state is left unchanged. *)
Theorem loadSession_outcome (w : World) :
  (forall data : Json,
     auth w (nreq w) GetSession = RJson data ->
     str_truthy (j_error data) = false ->
     fst (loadSession w) = Ok tt /\
     vw (run loadSession w)
       = set_appliedChanges
           (set_files (set_session (vw w) (Some data)) (default [] (j_files data)))
           (list_to_set (default [] (j_applied_changes data)))) /\
  (forall data : Json,
     auth w (nreq w) GetSession = RJson data ->
     str_truthy (j_error data) = true ->
     fst (loadSession w) = Exn (str_or (j_error data) "") /\
     vw (run loadSession w) = vw w) /\
  (auth w (nreq w) GetSession = RThrow ->
     (exists e, fst (loadSession w) = Exn e) /\ vw (run loadSession w) = vw w).
Proof.
  unfold run, loadSession, try_catch, bind, fetch_json, modify, throw.
  split; [|split].
  - intros data Hr He. rewrite Hr. cbn. rewrite He. split; reflexivity.
  - intros data Hr He. rewrite Hr. cbn. rewrite He. split; reflexivity.
  - intros Hr. rewrite Hr. cbn. split; [eexists; reflexivity | reflexivity].
Qed.

Lemma loadSession_outcome_witness :
  let snap := ex_snapshot [ex_fileA_flagged] (Some []) in
  let w := ex_world snap "" in
  fst (loadSession w) = Ok tt /\
  vw (run loadSession w)
    = set_appliedChanges
        (set_files (set_session (vw w) (Some snap)) (default [] (j_files snap)))
        (list_to_set (default [] (j_applied_changes snap))).
Proof.
  intros snap w.
  apply (proj1 (loadSession_outcome w) snap); reflexivity.
Defined.

(** C10: a reply without a truthy [error] field but lacking [files] or
    [applied_changes] still loads: the files default to the empty list and
    the applied-set to the empty set. *)
Theorem loadSession_missing_fields (w : World) (data : Json)
  (Hr : auth w (nreq w) GetSession = RJson data)
  (He : str_truthy (j_error data) = false) :
  fst (loadSession w) = Ok tt /\
  session (vw (run loadSession w)) = Some data /\
  (j_files data = None -> files (vw (run loadSession w)) = []) /\
  (j_applied_changes data = None -> appliedChanges (vw (run loadSession w)) = ∅).
Proof.
  unfold run, loadSession, try_catch, bind, fetch_json, modify.
  rewrite Hr. cbn. rewrite He. cbn.
  split; [reflexivity|]. split; [reflexivity|].
  split; intros H; rewrite H; reflexivity.
Qed.

Lemma loadSession_missing_fields_witness :
  let data := emptyJson in
  let w := mkWorld ex_viewer0 (fun _ _ => RJson data) 0 [] in
  auth w (nreq w) GetSession = RJson data /\
  str_truthy (j_error data) = false /\
  fst (loadSession w) = Ok tt /\
  session (vw (run loadSession w)) = Some data /\
  (j_files data = None -> files (vw (run loadSession w)) = []) /\
  (j_applied_changes data = None -> appliedChanges (vw (run loadSession w)) = ∅).
Proof.
  intros data w. split; [reflexivity|]. split; [reflexivity|].
  apply (loadSession_missing_fields w data); reflexivity.
Defined.

(** ** Bulk apply *)

(** Whatever the authority answers, [applyChange i] completes normally,
    issues exactly the request [PostApply i] (possibly followed by an
    alert) and leaves [i] added to the applied-set or the set unchanged. *)
Lemma applyChange_shape (w : World) (i : string) :
  fst (applyChange i w) = Ok tt /\
  (appliedChanges (vw (run (applyChange i) w)) = appliedChanges (vw w) \/
   appliedChanges (vw (run (applyChange i) w)) = {[i]} ∪ appliedChanges (vw w)) /\
  exists t, trace (run (applyChange i) w) = (trace w ++ Fetch (PostApply i) :: t)%list /\
            requests t = [].
Proof.
  unfold run, applyChange, try_catch, bind, fetch_json, modify, showError, emit.
  destruct (auth w (nreq w) (PostApply i)) as [j|]; cbn.
  - destruct (j_success j); cbn.
    + split; [reflexivity|]. split; [right; reflexivity|].
      exists []. split; reflexivity.
    + split; [reflexivity|]. split; [left; reflexivity|].
      eexists. rewrite <- app_assoc. split; reflexivity.
  - split; [reflexivity|]. split; [left; reflexivity|].
    eexists. rewrite <- app_assoc. split; reflexivity.
Qed.

(** The changes [applyAll_loop] requests: those whose id is not in the
    applied-set [s]. *)
Definition unapplied_in (s : gset string) (cs : list Change) : list Change :=
  List.filter (fun c => negb (bool_decide (id c ∈ s))) cs.

Lemma unapplied_in_add_other (s : gset string) (i : string) (cs : list Change) :
  i ∉ map id cs -> unapplied_in ({[i]} ∪ s) cs = unapplied_in s cs.
Proof.
  intros Hi. unfold unapplied_in. apply List.filter_ext_in.
  intros c Hc. f_equal. apply bool_decide_ext.
  assert (id c <> i).
  { intros <-. apply Hi. apply list_elem_of_In. apply in_map. exact Hc. }
  set_solver.
Qed.

Lemma applyAll_loop_requests (cs : list Change) :
  forall w : World, NoDup (map id cs) ->
  fst (applyAll_loop cs w) = Ok tt /\
  exists t, trace (run (applyAll_loop cs) w) = (trace w ++ t)%list /\
            requests t = map (fun c => PostApply (id c))
                             (unapplied_in (appliedChanges (vw w)) cs).
Proof.
  induction cs as [|c cs IH]; intros w Hnd.
  - split; [reflexivity|]. exists []. rewrite app_nil_r. split; reflexivity.
  - cbn [map] in Hnd. apply NoDup_cons in Hnd as [Hc Hnd].
    assert (E0 : applyAll_loop (c :: cs) w
      = bind (if bool_decide (id c ∈ appliedChanges (vw w)) then ret tt
              else applyChange (id c)) (fun _ => applyAll_loop cs) w)
      by reflexivity.
    unfold run. rewrite E0.
    unfold unapplied_in at 1. cbn [List.filter].
    destruct (bool_decide (id c ∈ appliedChanges (vw w))) eqn:Hin; cbn [negb].
    + apply IH. exact Hnd.
    + destruct (applyChange_shape w (id c)) as [Hok [Hset [t1 [Ht1 Hr1]]]].
      unfold run in Hset, Ht1.
      unfold bind. destruct (applyChange (id c) w) as [r w1] eqn:E.
      cbn in Hok. subst r. cbn [fst snd] in Hset, Ht1.
      destruct (IH w1 Hnd) as [Hok2 [t2 [Ht2 Hr2]]].
      split; [exact Hok2|].
      exists ((Fetch (PostApply (id c)) :: t1) ++ t2)%list.
      split.
      * unfold run in Ht2. rewrite Ht2, Ht1. rewrite <- !app_assoc. reflexivity.
      * unfold requests in *. rewrite omap_app. cbn. rewrite Hr1, Hr2.
        cbn. f_equal.
        destruct Hset as [-> | ->]; [reflexivity|].
        rewrite unapplied_in_add_other; [reflexivity|exact Hc].
Qed.

(** C4 (counterexample): after loading a session with three unapplied
    changes and applying [c1] successfully, [c1]'s [applied] flag is still
    [false]; yet [applyAllChanges] then requests only [c2] and [c3], none for
    [c1]: the loop skips changes by Set membership, not by flag. *)
Lemma C4_flag_false_not_requested :
  let w := run (applyChange "c1")
             (ex_loaded (ex_snapshot [ex_fileA; ex_fileB] None) "c2") in
  In ex_c1 (allChanges (files (vw w))) /\ applied ex_c1 = false /\
  requests (trace (run applyAllChanges w))
    = (requests (trace w) ++ [PostApply "c2"; PostApply "c3"])%list.
Proof.
  split; [left; reflexivity|]. split; [reflexivity|].
  vm_compute. reflexivity.
Qed.

(** C4 (amended): provided change ids are unique, [applyAllChanges]
    completes normally and the requests it issues are exactly one apply
    request per change whose id is not in the aggregate applied-set when it
    is called, in file order then in-file change order. Each request is
    issued after the previous call has finished, and the list does not
    depend on the authority's replies: a failed apply does not stop the
    loop. *)
Theorem applyAllChanges_requests (w : World)
  (Hnd : NoDup (map id (allChanges (files (vw w))))) :
  fst (applyAllChanges w) = Ok tt /\
  exists t, trace (run applyAllChanges w) = (trace w ++ t)%list /\
            requests t = map (fun c => PostApply (id c))
                             (unapplied_in (appliedChanges (vw w))
                                           (allChanges (files (vw w)))).
Proof.
  exact (applyAll_loop_requests (flat_map changes (files (vw w))) w Hnd).
Qed.

Lemma applyAllChanges_requests_witness :
  let w := ex_loaded (ex_snapshot [ex_fileA; ex_fileB] None) "c2" in
  NoDup (map id (allChanges (files (vw w)))) /\
  fst (applyAllChanges w) = Ok tt /\
  exists t, trace (run applyAllChanges w) = (trace w ++ t)%list /\
            requests t = map (fun c => PostApply (id c))
                             (unapplied_in (appliedChanges (vw w))
                                           (allChanges (files (vw w)))).
Proof.
  intros w.
  assert (Hnd : NoDup (map id (allChanges (files (vw w))))).
  { apply (bool_decide_unpack _). vm_compute. reflexivity. }
  split; [exact Hnd|]. apply (applyAllChanges_requests w). exact Hnd.
Defined.

(** ** Progress *)

Lemma progress_total_fold (fs : list File) (n : nat) :
  fold_left (fun sum file => (sum + length (changes file))%nat) fs n
  = (n + length (allChanges fs))%nat.
Proof.
  revert n. induction fs as [|f fs IH]; intros n; cbn.
  - lia.
  - rewrite IH. unfold allChanges. rewrite length_app. lia.
Qed.

Lemma size_list_to_set_le (l : list string) :
  size (list_to_set l : gset string) <= length l.
Proof.
  induction l as [|x l IH]; cbn.
  - rewrite size_empty. lia.
  - rewrite size_union_alt, size_singleton.
    pose proof (subseteq_size (list_to_set l ∖ {[x]} : gset string)
                  (list_to_set l) ltac:(set_solver)).
    lia.
Qed.

(** C5 (counterexample): a snapshot with one change whose
    [applied_changes] list also names an id foreign to its files loads into
    a registry where [updateProgress] shows 2 of 1 changes applied, i.e.
    200 percent. *)
Lemma C5_percentage_above_100 :
  let w := ex_loaded (ex_snapshot [ex_fileA] (Some ["c1"; "c9"])) "" in
  progress (vw w) = (2%nat, 1%nat, 200%Q) /\
  ~ (progress_percentage (vw w) <= 100)%Q.
Proof.
  split.
  - vm_compute. reflexivity.
  - intros H. apply Qle_bool_iff in H. vm_compute in H. discriminate.
Qed.

(** C5 (amended): [updateProgress] computes [totalChanges] as the sum of
    the files' change counts, [appliedCount] as the size of the applied-set
    and the percentage as [appliedCount / totalChanges * 100] when
    [totalChanges > 0] and 0 otherwise. The percentage is never negative,
    and it is at most 100 whenever every id in the applied-set is the id
    of a change in the files. With changes present, it is above 100
    exactly when the applied-set has more ids than there are changes. *)
Theorem progress_spec (v : Viewer) :
  let total := length (allChanges (files v)) in
  let appliedCount := size (appliedChanges v) in
  progress v = (appliedCount, total, progress_percentage v) /\
  (total = 0%nat -> progress_percentage v = 0%Q) /\
  ((0 < total)%nat ->
     progress_percentage v
       = ((Z.of_nat appliedCount # 1) / (Z.of_nat total # 1) * 100)%Q) /\
  (0 <= progress_percentage v)%Q /\
  (appliedChanges v ⊆ list_to_set (map id (allChanges (files v))) ->
     (progress_percentage v <= 100)%Q) /\
  ((0 < total)%nat ->
     ((100 < progress_percentage v)%Q <-> (total < appliedCount)%nat)).
Proof.
  cbv zeta.
  unfold progress_percentage, progress.
  rewrite progress_total_fold. cbn [Nat.add].
  set (t := length (allChanges (files v))).
  set (a := size (appliedChanges v)).
  destruct (Nat.ltb_spec0 0 t) as [Ht|Ht].
  - assert (Ht' : (0 < Z.of_nat t # 1)%Q) by (unfold Qlt; cbn; lia).
    assert (Hle : (a <= t)%nat ->
              ((Z.of_nat a # 1) / (Z.of_nat t # 1) * 100 <= 100)%Q).
    { intros Ha.
      apply Qle_trans with (y := (1 * 100)%Q); [|unfold Qle; cbn; lia].
      apply Qmult_le_compat_r; [|unfold Qle; cbn; lia].
      apply Qle_shift_div_r; [exact Ht'|]. unfold Qle; cbn; lia. }
    split; [reflexivity|]. split; [intros; lia|]. split; [reflexivity|].
    split.
    + apply Qmult_le_0_compat; [|unfold Qle; cbn; lia].
      apply Qle_shift_div_l; [exact Ht'|]. unfold Qle; cbn; lia.
    + split.
      * intros Hsub. apply Hle.
        unfold a, t.
        pose proof (subseteq_size _ _ Hsub) as H1.
        pose proof (size_list_to_set_le (map id (allChanges (files v)))) as H2.
        rewrite length_map in H2. lia.
      * intros _. split.
        -- intros Hgt. destruct (Nat.le_gt_cases a t) as [Ha|Ha]; [|exact Ha].
           exfalso. apply (Qlt_not_le _ _ Hgt). apply Hle. exact Ha.
        -- intros Ha.
           apply Qle_lt_trans with (y := (1 * 100)%Q); [unfold Qle; cbn; lia|].
           apply Qmult_lt_r; [unfold Qlt; cbn; lia|].
           apply Qlt_shift_div_l; [exact Ht'|]. unfold Qlt; cbn; lia.
  - split; [reflexivity|]. split; [reflexivity|].
    split; [intros; lia|]. split; [unfold Qle; cbn; lia|].
    split; [intros _; unfold Qle; cbn; lia|]. intros; lia.
Qed.

Lemma progress_spec_witness :
  let v := vw (ex_loaded (ex_snapshot [ex_fileA; ex_fileB] (Some ["c1"])) "") in
  let total := length (allChanges (files v)) in
  let appliedCount := size (appliedChanges v) in
  appliedChanges v ⊆ list_to_set (map id (allChanges (files v))) /\
  (0 < total)%nat /\
  progress v = (appliedCount, total, progress_percentage v) /\
  (total = 0%nat -> progress_percentage v = 0%Q) /\
  ((0 < total)%nat ->
     progress_percentage v
       = ((Z.of_nat appliedCount # 1) / (Z.of_nat total # 1) * 100)%Q) /\
  (0 <= progress_percentage v)%Q /\
  (appliedChanges v ⊆ list_to_set (map id (allChanges (files v))) ->
     (progress_percentage v <= 100)%Q) /\
  ((0 < total)%nat ->
     ((100 < progress_percentage v)%Q <-> (total < appliedCount)%nat)).
Proof.
  intros v total appliedCount.
  split; [apply (bool_decide_unpack _); vm_compute; reflexivity|].
  split; [vm_compute; lia|].
  apply (progress_spec v).
Defined.

(** ** Completion *)

Lemma requests_app_fetch (l t : list Event) (r : Req) :
  requests (l ++ Fetch r :: t) = (requests l ++ r :: requests t)%list.
Proof. unfold requests. rewrite omap_app. reflexivity. Qed.

Lemma applyChange_requests (w : World) (i : string) :
  requests (trace (run (applyChange i) w)) = (requests (trace w) ++ [PostApply i])%list.
Proof.
  destruct (applyChange_shape w i) as [_ [_ [t [Ht Hr]]]].
  rewrite Ht, requests_app_fetch, Hr. reflexivity.
Qed.

Lemma unapplyChange_requests (w : World) (i : string) :
  requests (trace (run (unapplyChange i) w)) = (requests (trace w) ++ [PostUnapply i])%list.
Proof.
  unfold run, unapplyChange, try_catch, bind, fetch_json, modify, showError, emit.
  destruct (auth w (nreq w) (PostUnapply i)) as [j|]; cbn;
    [destruct (j_success j); cbn|];
    unfold requests; rewrite <- ?app_assoc, omap_app; reflexivity.
Qed.

Lemma completeSession_requests (w : World) :
  requests (trace (run completeSession w)) = (requests (trace w) ++ [PostComplete])%list.
Proof.
  unfold run, completeSession, try_catch, bind, fetch_json, modify,
    showError, showSuccess, emit, throw.
  destruct (auth w (nreq w) PostComplete) as [j|]; cbn;
    [destruct (j_success j); cbn; [destruct (j_applied_changes j); cbn|]|];
    unfold requests; rewrite <- ?app_assoc, omap_app; reflexivity.
Qed.

(** C2 (code bug): a successful [completeSession] means to freeze the page:
    it disables every action button on screen and schedules
    [window.close()]. Nothing else guards the calls, and the freeze has two
    holes. The Ctrl/Cmd+Enter listener is no button: from every state it
    sends the completion request again. The per-change Apply / Unapply
    listeners send their request from every state, and [renderInterface]
    re-creates the change buttons without [disabled]. On the demo session,
    completed through the Complete button and the modal, Ctrl+Enter sends a
    second completion request; Ctrl+ArrowRight redraws the next file with
    enabled Apply buttons, and a click on the one of c2 sends an apply
    request whose success adds c2 to the applied-set. *)
Lemma completion_freeze_bypassed :
  (forall w : World,
     requests (trace (run (handleEvent (KeyDown true false "Enter")) w))
       = (requests (trace w) ++ [PostComplete])%list) /\
  (forall (w : World) (i : string),
     requests (trace (run (handleEvent (ClickChangeApply i)) w))
       = (requests (trace w) ++ [PostApply i])%list /\
     requests (trace (run (handleEvent (ClickChangeUnapply i)) w))
       = (requests (trace w) ++ [PostUnapply i])%list) /\
  (let w0 := ex_loaded (ex_snapshot [ex_fileA; ex_fileB] None) "" in
   let w1 := run (handleEvent ClickModalConfirm) (run (handleEvent ClickComplete) w0) in
   let w2 := run (handleEvent (KeyDown true false "ArrowRight")) w1 in
   let w3 := run (handleEvent (ClickChangeApply "c2")) w2 in
   actionButtonsDisabled (vw w1) = true /\
   sessionStatusText (vw w1) = "Session: Completed" /\
   requests (trace w1) = [GetSession; PostComplete] /\
   requests (trace (run (handleEvent (KeyDown true false "Enter")) w1))
     = [GetSession; PostComplete; PostComplete] /\
   currentFileButtons (vw w2) = Some [("c2", BtnApply); ("c3", BtnApply)] /\
   requests (trace w3) = [GetSession; PostComplete; PostApply "c2"] /\
   appliedChanges (vw w3) = {["c2"]}).
Proof.
  split; [|split].
  - intros w. apply completeSession_requests.
  - intros w i. split; [apply applyChange_requests|apply unapplyChange_requests].
  - repeat split; vm_compute; reflexivity.
Qed.

(** ** Change-type labels *)

(** The ten known change types get their label, and a string that is
    neither one of them nor a property name of [Object.prototype] gets its
    own upper-cased form. *)
Lemma formatChangeType_ordinary (type : string) :
  assoc type typeMap = None -> assoc type objectPrototype = None ->
  formatChangeType type = JStr (toUpperCase type).
Proof.
  intros H1 H2. unfold formatChangeType, typeMap_get. rewrite H1, H2.
  reflexivity.
Qed.

Lemma formatChangeType_known :
  map displayLabel
    ["replace"; "insert_after"; "insert_before"; "delete"; "create_file";
     "delete_file"; "replace_range"; "insert_many_after";
     "insert_many_before"; "delete_many"]
  = ["MODIFY"; "INSERT"; "INSERT"; "DELETE"; "CREATE";
     "DELETE"; "MODIFY"; "INSERT"; "INSERT"; "DELETE"].
Proof. reflexivity. Qed.

(** C7 (code bug): [typeMap[type]] also reads properties inherited from
    [Object.prototype], so the unknown change type "constructor" is not
    upper-cased: [formatChangeType] returns the [Object] function and the
    label shown is its source text. *)
Lemma formatChangeType_constructor :
  formatChangeType "constructor" = JFunction "Object" /\
  displayLabel "constructor" = "function Object() { [native code] }" /\
  formatChangeType "constructor" <> JStr (toUpperCase "constructor").
Proof.
  split; [reflexivity|]. split; [reflexivity|]. discriminate.
Qed.

(** ** The confirmation gate *)

(** C9 (code bug): with no pending confirmation, the keyboard shortcut
    Ctrl+Enter sends the completion request at once and completes the
    session, while its sibling, the Complete button, only stores the
    pending action and sends nothing until the modal is confirmed. *)
Lemma ctrl_enter_completes_without_confirmation :
  let w := ex_loaded (ex_snapshot [ex_fileA; ex_fileB] None) "" in
  let wk := run (handleEvent (KeyDown true false "Enter")) w in
  let wb := run (handleEvent ClickComplete) w in
  pendingAction (vw w) = None /\
  requests (trace wk) = (requests (trace w) ++ [PostComplete])%list /\
  actionButtonsDisabled (vw wk) = true /\
  requests (trace wb) = requests (trace w) /\
  pendingAction (vw wb) = Some PA_complete /\
  requests (trace (run (handleEvent ClickModalConfirm) wb))
    = (requests (trace w) ++ [PostComplete])%list.
Proof.
  repeat split; vm_compute; reflexivity.
Qed.

(* ================================================================== *)
(** * Further properties of the controller *)

(** ** Start-up *)

(** [init] never fails. When loading fails (the request rejects or the
    reply has a truthy [error]), it leaves the state unchanged and shows the
    fixed alert "Failed to load diff session", not the server's message;
    when loading succeeds, it shows no alert. *)
Theorem init_outcome (w : World) :
  ((auth w (nreq w) GetSession = RThrow \/
    exists data, auth w (nreq w) GetSession = RJson data /\
                 str_truthy (j_error data) = true) ->
   fst (init w) = Ok tt /\ vw (run init w) = vw w /\
   trace (run init w)
     = (trace w ++ [Fetch GetSession; Alert "Error: Failed to load diff session"])%list) /\
  (forall data, auth w (nreq w) GetSession = RJson data ->
   str_truthy (j_error data) = false ->
   fst (init w) = Ok tt /\ trace (run init w) = (trace w ++ [Fetch GetSession])%list).
Proof.
  unfold run, init, loadSession, try_catch, bind, fetch_json, modify, throw,
    showError, emit.
  split.
  - intros [Hr | [data [Hr He]]].
    + rewrite Hr. cbn. split; [reflexivity|]. split; [reflexivity|].
      rewrite <- app_assoc. reflexivity.
    + rewrite Hr. cbn. rewrite He. cbn.
      split; [reflexivity|]. split; [reflexivity|].
      rewrite <- app_assoc. reflexivity.
  - intros data Hr He. rewrite Hr. cbn. rewrite He. split; reflexivity.
Qed.

Lemma init_outcome_witness :
  let w := mkWorld ex_viewer0 ex_down 0 [] in
  fst (init w) = Ok tt /\ vw (run init w) = vw w /\
  trace (run init w)
    = (trace w ++ [Fetch GetSession; Alert "Error: Failed to load diff session"])%list.
Proof.
  intros w. apply (proj1 (init_outcome w)). left. reflexivity.
Defined.

(** ** Composing apply and unapply *)

(** Two successful calls undo each other: applying an id that is not in the
    applied-set and then unapplying it, or unapplying an id that is in the
    set and then applying it, gives back the controller state from
    before. *)
Theorem apply_unapply_roundtrip (w : World) (i : string) (j1 j2 : Json)
  (Hs1 : j_success j1 = true) (Hs2 : j_success j2 = true) :
  (auth w (nreq w) (PostApply i) = RJson j1 ->
   auth w (S (nreq w)) (PostUnapply i) = RJson j2 ->
   i ∉ appliedChanges (vw w) ->
   vw (run (unapplyChange i) (run (applyChange i) w)) = vw w) /\
  (auth w (nreq w) (PostUnapply i) = RJson j1 ->
   auth w (S (nreq w)) (PostApply i) = RJson j2 ->
   i ∈ appliedChanges (vw w) ->
   vw (run (applyChange i) (run (unapplyChange i) w)) = vw w).
Proof.
  split; intros H1 H2 Hi;
    unfold run, applyChange, unapplyChange, try_catch, bind, fetch_json, modify;
    cbn; rewrite H1; cbn; rewrite Hs1; cbn; rewrite H2; cbn; rewrite Hs2; cbn;
    destruct w as [[a b c d A0 e f g] au n t]; unfold set_appliedChanges; cbn in *;
    f_equal.
  - set_solver.
  - symmetry. apply union_difference_singleton_L. exact Hi.
Qed.

Lemma apply_unapply_roundtrip_witness :
  let w := ex_loaded (ex_snapshot [ex_fileA; ex_fileB] None) "" in
  vw (run (unapplyChange "c1") (run (applyChange "c1") w)) = vw w.
Proof.
  intros w.
  apply (proj1 (apply_unapply_roundtrip w "c1" ex_success ex_success
                  eq_refl eq_refl)); [reflexivity|reflexivity|].
  apply (bool_decide_unpack _). vm_compute. reflexivity.
Defined.

Lemma applyChange_on_success (w : World) (i : string) (j : Json) :
  auth w (nreq w) (PostApply i) = RJson j -> j_success j = true ->
  vw (run (applyChange i) w) = set_appliedChanges (vw w) ({[i]} ∪ appliedChanges (vw w)).
Proof.
  intros Hr Hs. unfold run, applyChange, try_catch, bind, fetch_json, modify.
  rewrite Hr. cbn. rewrite Hs. reflexivity.
Qed.

Lemma unapplyChange_on_success (w : World) (i : string) (j : Json) :
  auth w (nreq w) (PostUnapply i) = RJson j -> j_success j = true ->
  vw (run (unapplyChange i) w) = set_appliedChanges (vw w) (appliedChanges (vw w) ∖ {[i]}).
Proof.
  intros Hr Hs. unfold run, unapplyChange, try_catch, bind, fetch_json, modify.
  rewrite Hr. cbn. rewrite Hs. reflexivity.
Qed.

(** A successful apply of an id not yet in the applied-set raises the
    applied count shown by [updateProgress] by exactly one, and a successful
    unapply of an id in the set lowers it by one; the total is unchanged. *)
Theorem progress_after_apply_unapply (w : World) (i : string) (j : Json)
  (Hs : j_success j = true) :
  (auth w (nreq w) (PostApply i) = RJson j -> i ∉ appliedChanges (vw w) ->
   size (appliedChanges (vw (run (applyChange i) w)))
     = S (size (appliedChanges (vw w))) /\
   files (vw (run (applyChange i) w)) = files (vw w)) /\
  (auth w (nreq w) (PostUnapply i) = RJson j -> i ∈ appliedChanges (vw w) ->
   S (size (appliedChanges (vw (run (unapplyChange i) w))))
     = size (appliedChanges (vw w)) /\
   files (vw (run (unapplyChange i) w)) = files (vw w)).
Proof.
  split; intros Hr Hi.
  - rewrite (applyChange_on_success w i j Hr Hs). unfold set_appliedChanges.
    cbn [appliedChanges files]. split; [|reflexivity].
    rewrite size_union by set_solver. rewrite size_singleton. lia.
  - rewrite (unapplyChange_on_success w i j Hr Hs). unfold set_appliedChanges.
    cbn [appliedChanges files]. split; [|reflexivity].
    rewrite size_difference by set_solver. rewrite size_singleton.
    pose proof (subseteq_size ({[i]} : gset string) (appliedChanges (vw w))
                  ltac:(set_solver)) as Hle.
    rewrite size_singleton in Hle. lia.
Qed.

Lemma progress_after_apply_unapply_witness :
  let w := ex_loaded (ex_snapshot [ex_fileA; ex_fileB] None) "" in
  size (appliedChanges (vw (run (applyChange "c1") w)))
    = S (size (appliedChanges (vw w))) /\
  files (vw (run (applyChange "c1") w)) = files (vw w).
Proof.
  intros w.
  apply (proj1 (progress_after_apply_unapply w "c1" ex_success eq_refl));
    [reflexivity|].
  apply (bool_decide_unpack _). vm_compute. reflexivity.
Defined.

(** ** Bulk apply: what it can change *)

Lemma set_appliedChanges_twice (v : Viewer) (a b : gset string) :
  set_appliedChanges (set_appliedChanges v a) b = set_appliedChanges v b.
Proof. reflexivity. Qed.

Lemma set_appliedChanges_same (v : Viewer) :
  set_appliedChanges v (appliedChanges v) = v.
Proof. destruct v; reflexivity. Qed.

Lemma applyChange_effect (w : World) (i : string) :
  fst (applyChange i w) = Ok tt /\
  auth (run (applyChange i) w) = auth w /\
  exists a, vw (run (applyChange i) w) = set_appliedChanges (vw w) a /\
            appliedChanges (vw w) ⊆ a /\ a ⊆ {[i]} ∪ appliedChanges (vw w) /\
            (accepts_applies (auth w) -> i ∈ a).
Proof.
  unfold run, applyChange, try_catch, bind, fetch_json, modify, showError, emit.
  destruct (auth w (nreq w) (PostApply i)) as [j|] eqn:Hr; cbn.
  - destruct (j_success j) eqn:Hs; cbn.
    + split; [reflexivity|]. split; [reflexivity|].
      exists ({[i]} ∪ appliedChanges (vw w)).
      split; [reflexivity|]. split; [set_solver|]. split; [set_solver|].
      intros _. set_solver.
    + split; [reflexivity|]. split; [reflexivity|].
      exists (appliedChanges (vw w)).
      split; [symmetry; apply set_appliedChanges_same|].
      split; [set_solver|]. split; [set_solver|].
      intros Hacc. destruct (Hacc (nreq w) i) as [j' [Hr' Hs']].
      rewrite Hr in Hr'. injection Hr' as <-. congruence.
  - split; [reflexivity|]. split; [reflexivity|].
    exists (appliedChanges (vw w)).
    split; [symmetry; apply set_appliedChanges_same|].
    split; [set_solver|]. split; [set_solver|].
    intros Hacc. destruct (Hacc (nreq w) i) as [j' [Hr' _]].
    rewrite Hr in Hr'. discriminate.
Qed.

Lemma applyAll_loop_effect (cs : list Change) :
  forall w : World,
  fst (applyAll_loop cs w) = Ok tt /\
  auth (run (applyAll_loop cs) w) = auth w /\
  exists a, vw (run (applyAll_loop cs) w) = set_appliedChanges (vw w) a /\
            appliedChanges (vw w) ⊆ a /\
            a ⊆ appliedChanges (vw w) ∪ list_to_set (map id cs) /\
            (accepts_applies (auth w) -> list_to_set (map id cs) ⊆ a).
Proof.
  induction cs as [|c cs IH]; intros w.
  - split; [reflexivity|]. split; [reflexivity|].
    exists (appliedChanges (vw w)).
    split; [symmetry; apply set_appliedChanges_same|].
    split; [set_solver|]. split; [set_solver|]. intros _. set_solver.
  - assert (E0 : applyAll_loop (c :: cs) w
      = bind (if bool_decide (id c ∈ appliedChanges (vw w)) then ret tt
              else applyChange (id c)) (fun _ => applyAll_loop cs) w)
      by reflexivity.
    unfold run. rewrite E0.
    destruct (bool_decide (id c ∈ appliedChanges (vw w))) eqn:Hin.
    + apply bool_decide_eq_true in Hin.
      destruct (IH w) as [Hok [Hau [a [Hv [H1 [H2 H3]]]]]].
      unfold run in *. cbn [bind ret].
      split; [exact Hok|]. split; [exact Hau|].
      exists a. split; [exact Hv|]. split; [exact H1|].
      cbn [map list_to_set]. split; [set_solver|].
      intros Hacc. specialize (H3 Hacc). set_solver.
    + destruct (applyChange_effect w (id c)) as [Hok1 [Hau1 [a1 [Hv1 [K1 [K2 K3]]]]]].
      unfold run in Hau1, Hv1. unfold bind.
      destruct (applyChange (id c) w) as [r w1] eqn:E.
      cbn in Hok1. subst r. cbn [fst snd] in Hau1, Hv1.
      destruct (IH w1) as [Hok [Hau [a [Hv [H1 [H2 H3]]]]]].
      unfold run in Hau, Hv.
      split; [exact Hok|]. split; [congruence|].
      exists a. rewrite Hv, Hv1. split; [reflexivity|].
      rewrite Hv1 in H1, H2. cbn [appliedChanges set_appliedChanges] in H1, H2.
      split; [set_solver|].
      cbn [map list_to_set]. split; [set_solver|].
      intros Hacc. rewrite <- Hau1 in Hacc.
      specialize (H3 Hacc). rewrite Hau1 in Hacc. specialize (K3 Hacc).
      set_solver.
Qed.

(** Whatever the authority answers, [applyAllChanges] completes normally,
    never removes an id from the applied-set, adds only ids of changes in
    the files, and changes nothing else in the controller state (files,
    focus, session, pending action). *)
Theorem applyAllChanges_only_adds (w : World) :
  fst (applyAllChanges w) = Ok tt /\
  exists a, vw (run applyAllChanges w) = set_appliedChanges (vw w) a /\
            appliedChanges (vw w) ⊆ a /\
            a ⊆ appliedChanges (vw w) ∪ list_to_set (map id (allChanges (files (vw w)))).
Proof.
  destruct (applyAll_loop_effect (flat_map changes (files (vw w))) w)
    as [Hok [_ [a [Hv [H1 [H2 _]]]]]].
  split; [exact Hok|]. exists a. split; [exact Hv|]. split; assumption.
Qed.

(** With an authority that accepts every apply, after [applyAllChanges]
    every change of every file is in the applied-set. *)
Theorem applyAllChanges_accepting (w : World)
  (Hacc : accepts_applies (auth w)) :
  list_to_set (map id (allChanges (files (vw w)))) ⊆ appliedChanges (vw (run applyAllChanges w)) /\
  files (vw (run applyAllChanges w)) = files (vw w).
Proof.
  destruct (applyAll_loop_effect (flat_map changes (files (vw w))) w)
    as [_ [_ [a [Hv [_ [_ H3]]]]]].
  change (run applyAllChanges w) with (run (applyAll_loop (flat_map changes (files (vw w)))) w).
  rewrite Hv. split; [exact (H3 Hacc)|reflexivity].
Qed.

Lemma applyAllChanges_accepting_witness :
  accepts_applies (auth ex_accepting_world) /\
  list_to_set (map id (allChanges (files (vw ex_accepting_world))))
    ⊆ appliedChanges (vw (run applyAllChanges ex_accepting_world)) /\
  files (vw (run applyAllChanges ex_accepting_world)) = files (vw ex_accepting_world).
Proof.
  assert (Hacc : accepts_applies (auth ex_accepting_world)).
  { intros n i. exists ex_success. split; reflexivity. }
  split; [exact Hacc|]. apply (applyAllChanges_accepting ex_accepting_world Hacc).
Defined.

(** ** Completion edge cases *)

(** When completion fails (the request rejects or the reply has
    [success: false]), [completeSession] leaves the controller state as it
    was, buttons enabled, and shows the reply's error or the default
    message. *)
Theorem completeSession_failure (w : World) :
  (auth w (nreq w) PostComplete = RThrow ->
   vw (run completeSession w) = vw w /\
   trace (run completeSession w)
     = (trace w ++ [Fetch PostComplete; Alert "Error: Failed to complete session"])%list) /\
  (forall j, auth w (nreq w) PostComplete = RJson j -> j_success j = false ->
   vw (run completeSession w) = vw w /\
   trace (run completeSession w)
     = (trace w ++ [Fetch PostComplete;
                    Alert ("Error: " ++ str_or (j_error j) "Failed to complete session")])%list).
Proof.
  unfold run, completeSession, try_catch, bind, fetch_json, showError, emit.
  split.
  - intros Hr. rewrite Hr. cbn. split; [reflexivity|].
    rewrite <- app_assoc. reflexivity.
  - intros j Hr Hs. rewrite Hr. cbn. rewrite Hs. cbn. split; [reflexivity|].
    rewrite <- app_assoc. reflexivity.
Qed.

Lemma completeSession_failure_witness :
  let w := mkWorld ex_viewer0 (fun _ _ => RJson (ex_failure "locked")) 0 [] in
  vw (run completeSession w) = vw w /\
  trace (run completeSession w)
    = (trace w ++ [Fetch PostComplete; Alert ("Error: " ++ "locked")])%list.
Proof.
  intros w. apply ((proj2 (completeSession_failure w)) (ex_failure "locked"));
    reflexivity.
Defined.

(** A reply [{success: true}] without [applied_changes] makes reading
    [result.applied_changes.length] throw inside the [try]: the session was
    completed by the authority, but the controller shows "Failed to
    complete session", keeps its buttons enabled and its status text. *)
Theorem completeSession_success_without_list (w : World) (j : Json)
  (Hr : auth w (nreq w) PostComplete = RJson j)
  (Hs : j_success j = true) (Hl : j_applied_changes j = None) :
  vw (run completeSession w) = vw w /\
  trace (run completeSession w)
    = (trace w ++ [Fetch PostComplete; Alert "Error: Failed to complete session"])%list.
Proof.
  unfold run, completeSession, try_catch, bind, fetch_json, showError, emit, throw.
  rewrite Hr. cbn. rewrite Hs, Hl. cbn. split; [reflexivity|].
  rewrite <- app_assoc. reflexivity.
Qed.

Lemma completeSession_success_without_list_witness :
  let w := mkWorld ex_viewer0 (fun _ _ => RJson ex_success) 0 [] in
  vw (run completeSession w) = vw w /\
  trace (run completeSession w)
    = (trace w ++ [Fetch PostComplete; Alert "Error: Failed to complete session"])%list.
Proof.
  intros w. apply (completeSession_success_without_list w ex_success); reflexivity.
Defined.

(** ** The confirmation gate *)

Lemma completeSession_ok (w : World) : fst (completeSession w) = Ok tt.
Proof.
  unfold completeSession, try_catch, bind, fetch_json, modify, showError,
    showSuccess, throw.
  destruct (auth w (nreq w) PostComplete) as [j|]; cbn; [|reflexivity].
  destruct (j_success j); cbn; [|reflexivity].
  destruct (j_applied_changes j); reflexivity.
Qed.

Lemma runPendingAction_ok (a : PendingAction) (w : World) :
  fst (runPendingAction a w) = Ok tt.
Proof.
  destruct a; cbn [runPendingAction].
  - exact (proj1 (applyAll_loop_effect _ w)).
  - apply completeSession_ok.
Qed.

(** Confirming right after [showConfirmation(a)] runs exactly [a] and then
    clears the pending action; cancelling instead drops [a] and sends
    nothing; a second [showConfirmation(b)] replaces [a]; and confirming
    with nothing pending does nothing at all. *)
Theorem confirmation_gate (w : World) (a b : PendingAction) :
  run (handleEvent ClickModalConfirm) (run (showConfirmation a) w)
    = (let w1 := run (runPendingAction a) (run (showConfirmation a) w) in
       set_vw w1 (set_pendingAction (vw w1) None)) /\
  run (handleEvent ClickModalCancel) (run (showConfirmation a) w)
    = set_vw w (set_pendingAction (vw w) None) /\
  run (showConfirmation b) (run (showConfirmation a) w)
    = run (showConfirmation b) w /\
  (pendingAction (vw w) = None -> run (handleEvent ClickModalConfirm) w = w).
Proof.
  split; [|split; [|split]].
  - unfold run at 1 2. cbn [handleEvent]. unfold bind at 1, get.
    cbn [pendingAction vw showConfirmation].
    change (showConfirmation a w).2 with (run (showConfirmation a) w).
    remember (run (showConfirmation a) w) as w0 eqn:Hw0.
    assert (Hp : pendingAction (vw w0) = Some a) by (subst w0; reflexivity).
    rewrite Hp. unfold bind.
    pose proof (runPendingAction_ok a w0) as Hok.
    unfold run. destruct (runPendingAction a w0) as [r w1].
    cbn in Hok. subst r. reflexivity.
  - reflexivity.
  - reflexivity.
  - intros Hp. unfold run, handleEvent, bind, get. rewrite Hp. reflexivity.
Qed.

Lemma confirmation_gate_witness :
  let w := ex_loaded (ex_snapshot [ex_fileA; ex_fileB] None) "" in
  pendingAction (vw w) = None /\ run (handleEvent ClickModalConfirm) w = w.
Proof.
  intros w.
  assert (Hp : pendingAction (vw w) = None) by reflexivity.
  split; [exact Hp|].
  apply (proj2 (proj2 (proj2 (confirmation_gate w PA_complete PA_complete)))).
  exact Hp.
Defined.

(** ** Which user events reach the authority *)

Lemma navigateFile_trace (w : World) (d : Z) :
  trace (run (navigateFile d) w) = trace w.
Proof.
  unfold run, navigateFile, bind, get, put, ret.
  destruct (_ && _)%bool; reflexivity.
Qed.

(** A per-change Apply or Unapply click sends exactly one request, for its
    change, whatever the state. Every other event except confirming the
    modal and Ctrl/Cmd+Enter sends no request: the navigation buttons and
    arrow shortcuts, Apply All, Skip All, Complete, Apply Selected, Cancel
    and other key presses. *)
Theorem requests_only_from_confirm_shortcut_or_change_buttons (ev : UiEvent) (w : World) :
  (forall i, requests (trace (run (handleEvent (ClickChangeApply i)) w))
               = (requests (trace w) ++ [PostApply i])%list) /\
  (forall i, requests (trace (run (handleEvent (ClickChangeUnapply i)) w))
               = (requests (trace w) ++ [PostUnapply i])%list) /\
  (ev <> ClickModalConfirm ->
   (forall c m, ev = KeyDown c m "Enter" -> (c || m)%bool = false) ->
   (forall i, ev <> ClickChangeApply i) ->
   (forall i, ev <> ClickChangeUnapply i) ->
   requests (trace (run (handleEvent ev) w)) = requests (trace w)).
Proof.
  split; [intros i; apply applyChange_requests|].
  split; [intros i; apply unapplyChange_requests|].
  intros Hc Hk Ha Hu.
  destruct ev as [| | | | | | | | c m k | i | i]; cbn [handleEvent];
    try (rewrite navigateFile_trace; reflexivity);
    try reflexivity.
  - unfold run, applySelectedChanges, bind, get, showSuccess, emit. cbn.
    unfold requests. rewrite omap_app. cbn. rewrite app_nil_r. reflexivity.
  - exfalso. apply Hc. reflexivity.
  - destruct (c || m)%bool eqn:Hcm; [|reflexivity].
    destruct (String.eqb k "ArrowLeft"); [rewrite navigateFile_trace; reflexivity|].
    destruct (String.eqb k "ArrowRight"); [rewrite navigateFile_trace; reflexivity|].
    destruct (String.eqb k "Enter") eqn:Hen; [|reflexivity].
    apply String.eqb_eq in Hen. subst k.
    specialize (Hk c m eq_refl). congruence.
  - exfalso. exact (Ha i eq_refl).
  - exfalso. exact (Hu i eq_refl).
Qed.

Lemma requests_only_from_confirm_shortcut_or_change_buttons_witness :
  let w := ex_loaded (ex_snapshot [ex_fileA; ex_fileB] None) "" in
  requests (trace (run (handleEvent ClickSkipAll) w)) = requests (trace w).
Proof.
  intros w.
  apply (requests_only_from_confirm_shortcut_or_change_buttons ClickSkipAll w).
  - discriminate.
  - intros c m H. discriminate.
  - intros i H. discriminate.
  - intros i H. discriminate.
Defined.

(** ** Focus and navigation buttons *)

(** Navigation keeps the focus on an existing file: from a focus in range,
    [navigateFile] with any step leaves it in range; and from any focus,
    clicking the tab of an existing file puts it in range. *)
Theorem focus_stays_in_range (w : World) (d : Z) (i : nat) :
  (focus_in_range (vw w) -> focus_in_range (vw (run (navigateFile d) w))) /\
  (i < length (files (vw w)) -> focus_in_range (vw (run (selectTab i) w))).
Proof.
  unfold focus_in_range. split.
  - intros H. unfold run, navigateFile, bind, get, put, ret.
    destruct (Z.leb_spec0 0 (currentFileIndex (vw w) + d));
    destruct (Z.ltb_spec0 (currentFileIndex (vw w) + d)
                (Z.of_nat (length (files (vw w))))); cbn; lia.
  - intros Hi. unfold run, selectTab, modify. cbn. lia.
Qed.

Lemma focus_stays_in_range_witness :
  let w := ex_loaded (ex_snapshot [ex_fileA; ex_fileB] None) "" in
  let w' := set_vw w (set_currentFileIndex (vw w) 7) in
  focus_in_range (vw w) /\
  focus_in_range (vw (run (navigateFile 1) w)) /\
  1 < length (files (vw w')) /\
  focus_in_range (vw (run (selectTab 1) w')).
Proof.
  intros w w'.
  assert (H : focus_in_range (vw w))
    by (unfold focus_in_range; change (0 <= 0 < 2)%Z; lia).
  assert (Hl : 1 < length (files (vw w'))) by (cbn; lia).
  split; [exact H|]. split; [exact (proj1 (focus_stays_in_range w 1 0 ) H)|].
  split; [exact Hl|]. exact (proj2 (focus_stays_in_range w' 0 1) Hl).
Defined.

(** With the focus in range, [renderCurrentFile] disables the previous
    button exactly when [navigateFile(-1)] would do nothing, and the next
    button exactly when [navigateFile(1)] would do nothing. *)
Theorem navButtons_match_navigation (w : World) (H : focus_in_range (vw w)) :
  (fst (navButtonsDisabled (vw w)) = true <->
   vw (run (navigateFile (-1)) w) = vw w) /\
  (snd (navButtonsDisabled (vw w)) = true <->
   vw (run (navigateFile 1) w) = vw w).
Proof.
  unfold focus_in_range, navButtonsDisabled in *. cbn [fst snd].
  unfold run, navigateFile, bind, get, put, ret.
  set (cur := currentFileIndex (vw w)) in *.
  set (len := Z.of_nat (length (files (vw w)))) in *.
  split.
  - destruct (Z.leb_spec0 0 (cur + -1)); destruct (Z.ltb_spec0 (cur + -1) len);
      cbn; rewrite Z.eqb_eq; split; intros E; try reflexivity; try lia;
      apply (f_equal currentFileIndex) in E; cbn in E; lia.
  - destruct (Z.leb_spec0 0 (cur + 1)); destruct (Z.ltb_spec0 (cur + 1) len);
      cbn; rewrite Z.eqb_eq; split; intros E; try reflexivity; try lia;
      apply (f_equal currentFileIndex) in E; cbn in E; lia.
Qed.

Lemma navButtons_match_navigation_witness :
  let w := ex_loaded (ex_snapshot [ex_fileA; ex_fileB] None) "" in
  focus_in_range (vw w) /\
  (fst (navButtonsDisabled (vw w)) = true <->
   vw (run (navigateFile (-1)) w) = vw w) /\
  (snd (navButtonsDisabled (vw w)) = true <->
   vw (run (navigateFile 1) w) = vw w).
Proof.
  intros w.
  assert (H : focus_in_range (vw w))
    by (unfold focus_in_range; change (0 <= 0 < 2)%Z; lia).
  split; [exact H|]. apply (navButtons_match_navigation w H).
Defined.

(** ** Rendered texts *)

Lemma count_newlines_app (a b : string) :
  count_newlines (a ++ b) = (count_newlines a + count_newlines b)%nat.
Proof.
  induction a as [|c a IH]; [reflexivity|].
  change (String c a ++ b) with (String c (a ++ b)).
  cbn [count_newlines]. rewrite IH. lia.
Qed.

(** The "N lines" count of [renderCurrentFile] is one more than the number
    of newline characters: an empty content shows 1 line, and a trailing
    newline adds one. *)
Theorem lineCount_newlines (s : string) :
  lineCount s = S (count_newlines s) /\
  lineCount (s ++ String newline EmptyString) = S (lineCount s).
Proof.
  assert (Hc : forall t, lineCount t = S (count_newlines t)).
  { intros t. unfold lineCount. induction t as [|c t IH]; cbn; [reflexivity|].
    destruct (Ascii.eqb c newline); cbn.
    - rewrite IH. reflexivity.
    - destruct (split_newline t) as [|h l]; cbn in *; [discriminate|exact IH]. }
  split; [apply Hc|]. rewrite !Hc, count_newlines_app.
  change (count_newlines (String newline EmptyString)) with 1%nat. lia.
Qed.

Lemma has_char_app (c : ascii) (a b : string) :
  has_char c (a ++ b) = (has_char c a || has_char c b)%bool.
Proof.
  induction a as [|c' a IH]; [reflexivity|].
  change (String c' a ++ b) with (String c' (a ++ b)).
  cbn [has_char]. rewrite IH. apply orb_assoc.
Qed.

Lemma escapeHtml_no_angle (s : string) :
  has_char "<"%char (escapeHtml s) = false /\ has_char ">"%char (escapeHtml s) = false.
Proof.
  induction s as [|c s [IH1 IH2]]; [split; reflexivity|].
  cbn [escapeHtml]. rewrite !has_char_app, IH1, IH2.
  destruct (Ascii.eqb_spec c "&"%char); [split; reflexivity|].
  destruct (Ascii.eqb_spec c "<"%char); [split; reflexivity|].
  destruct (Ascii.eqb_spec c ">"%char); [split; reflexivity|].
  destruct (Ascii.eqb_spec c (Ascii.ascii_of_nat 160)); [split; reflexivity|].
  cbn [has_char]. rewrite !orb_false_r.
  split; apply Ascii.eqb_neq; congruence.
Qed.

(** [escapeHtml] never outputs [<] or [>], so every line of the body that
    [createChangeElement] writes with [innerHTML] is free of them whatever
    the change's contents: the contents cannot open a tag. Text with none
    of [&], [<], [>] and the no-break space is returned unchanged. *)
Theorem escapeHtml_safe (s : string) (change : Change) :
  has_char "<"%char (escapeHtml s) = false /\
  has_char ">"%char (escapeHtml s) = false /\
  Forall (fun line => has_char "<"%char (snd line) = false /\
                      has_char ">"%char (snd line) = false)
         (changeBodyLines change) /\
  ((has_char "&"%char s || has_char "<"%char s || has_char ">"%char s ||
    has_char (Ascii.ascii_of_nat 160) s)%bool = false -> escapeHtml s = s).
Proof.
  split; [apply escapeHtml_no_angle|]. split; [apply escapeHtml_no_angle|].
  split.
  - assert (Hl : forall p t, has_char "<"%char p = false -> has_char ">"%char p = false ->
              has_char "<"%char (p ++ escapeHtml t) = false /\
              has_char ">"%char (p ++ escapeHtml t) = false).
    { intros p t H1 H2. rewrite !has_char_app, H1, H2.
      destruct (escapeHtml_no_angle t) as [-> ->]. split; reflexivity. }
    unfold changeBodyLines.
    destruct (str_truthy (old_content change)), (str_truthy (new_content change));
      cbn [andb]; repeat constructor; apply Hl; reflexivity.
  - induction s as [|c s IH]; [reflexivity|]. intros H.
    cbn [has_char] in H. cbn [escapeHtml].
    destruct (Ascii.eqb_spec "&"%char c) as [E1|E1]; [discriminate H|].
    destruct (Ascii.eqb_spec "<"%char c) as [E2|E2];
      [rewrite ?orb_true_r in H; discriminate H|].
    destruct (Ascii.eqb_spec ">"%char c) as [E3|E3];
      [rewrite ?orb_true_r in H; discriminate H|].
    destruct (Ascii.eqb_spec (Ascii.ascii_of_nat 160) c) as [E4|E4];
      [rewrite ?orb_true_r in H; discriminate H|].
    cbn [orb] in H.
    rewrite (proj2 (Ascii.eqb_neq c "&"%char)) by congruence.
    rewrite (proj2 (Ascii.eqb_neq c "<"%char)) by congruence.
    rewrite (proj2 (Ascii.eqb_neq c ">"%char)) by congruence.
    rewrite (proj2 (Ascii.eqb_neq c (Ascii.ascii_of_nat 160))) by congruence.
    change (String c EmptyString ++ escapeHtml s) with (String c (escapeHtml s)).
    rewrite IH by exact H. reflexivity.
Qed.

(** ** What a re-render shows *)

Lemma unapplyChange_files (w : World) (i : string) :
  files (vw (run (unapplyChange i) w)) = files (vw w) /\
  session (vw (run (unapplyChange i) w)) = session (vw w).
Proof.
  unfold run, unapplyChange, try_catch, bind, fetch_json, modify, showError, emit.
  destruct (auth w (nreq w) (PostUnapply i)) as [j|]; cbn; [|split; reflexivity].
  destruct (j_success j); cbn; split; reflexivity.
Qed.

Lemma applyAllChanges_unfold (w : World) :
  applyAllChanges w = applyAll_loop (allChanges (files (vw w))) w.
Proof. reflexivity. Qed.

(** [createChangeElement] draws the Apply / Unapply button of a change from
    the change's own [applied] field, which [applyChange],
    [unapplyChange] and [applyAllChanges] never write: whatever the
    replies, the buttons of the next full render ([renderInterface], e.g.
    on navigation) are those of the loaded snapshot. *)
Theorem renderedButtons_ignore_applied_set (w : World) (i : string) :
  renderedButtons (vw (run (applyChange i) w)) = renderedButtons (vw w) /\
  renderedButtons (vw (run (unapplyChange i) w)) = renderedButtons (vw w) /\
  renderedButtons (vw (run applyAllChanges w)) = renderedButtons (vw w).
Proof.
  unfold renderedButtons.
  split; [|split].
  - destruct (applyChange_effect w i) as [_ [_ [a [Hv _]]]].
    rewrite Hv. reflexivity.
  - rewrite (proj1 (unapplyChange_files w i)). reflexivity.
  - destruct (applyAll_loop_effect (allChanges (files (vw w))) w)
      as [_ [_ [a [Hv _]]]].
    unfold run in *. rewrite applyAllChanges_unfold, Hv. reflexivity.
Qed.

(** A successful completion writes "Session: Completed" into the status bar
    but leaves [this.session] as it was, so the texts [updateStatusBar]
    writes on the next [renderInterface] are the loaded ones. *)
Theorem completion_status_not_kept (w : World) (j : Json) (l : list string)
  (Hr : auth w (nreq w) PostComplete = RJson j)
  (Hs : j_success j = true) (Hl : j_applied_changes j = Some l) :
  sessionStatusText (vw (run completeSession w)) = "Session: Completed" /\
  statusBarTexts (vw (run completeSession w)) = statusBarTexts (vw w).
Proof.
  unfold run, completeSession, try_catch, bind, fetch_json, modify, showSuccess, emit.
  rewrite Hr. cbn [fst snd vw auth nreq trace]. rewrite Hs, Hl.
  cbn [fst snd vw set_vw set_completedDom]. split; reflexivity.
Qed.

Lemma completion_status_not_kept_witness :
  let w := ex_loaded (ex_snapshot [ex_fileA; ex_fileB] None) "" in
  sessionStatusText (vw (run completeSession w)) = "Session: Completed" /\
  statusBarTexts (vw (run completeSession w)) = statusBarTexts (vw w) /\
  statusBarTexts (vw w) = Some ("Repository: demo-repo", "Session: active").
Proof.
  intros w. split.
  - apply (completion_status_not_kept w (ex_completed ["c1"]) ["c1"]); reflexivity.
  - split; [apply (completion_status_not_kept w (ex_completed ["c1"]) ["c1"]);
            reflexivity|].
    reflexivity.
Defined.
